(** * rtc::scoped_refptr<T> (api/scoped_refptr.h)

    A shallow embedding of the intrusive smart pointer and of the memory it
    acts on.  A [scoped_refptr<T>] has the single field [T* ptr_], so an
    instance is identified with the address of that field (a [slot]); the
    methods become programs of a small state-and-failure monad over a
    [world] made of the pointer cells, the pointees and the log of the
    [AddRef]/[Release] calls issued so far. *)

From Stdlib Require Import ZArith Lia.
From stdpp Require Import base option list gmap.

Local Open Scope Z_scope.

(** ** Pointers *)

(** Address of a reference counted [T] object. *)
Definition addr : Type := positive.

(** A raw [T*]; [None] is [nullptr].  A pointer to a subclass [U] converts to
    the pointer to the same object. *)
Definition ptr : Type := option addr.

(** Address of a [T*] cell: the [ptr_] field of some scoped_refptr, or any
    other [T*] variable handed to [swap(T** pp)]. *)
Definition slot : Type := positive.

(** ** The pointee *)

(** What the template asks of [T]: the two methods [AddRef()] and
    [Release()].  [O] is the state of all pointees; a method acts on the
    object at the given address and returns nothing the smart pointer looks
    at. *)
Class RefCountInterface (O : Type) : Type := {
  add_ref : addr -> O -> O;
  release_ref : addr -> O -> O
}.

(** The two calls a scoped_refptr makes on its pointee. *)
Inductive call : Type :=
  | CallAddRef (o : addr)
  | CallRelease (o : addr).

#[global] Instance call_eq_dec : EqDecision call.
Proof. solve_decision. Defined.

Section Calls.
Context {O : Type} {T : RefCountInterface O}.

Definition perform (c : call) (os : O) : O :=
  match c with
  | CallAddRef o => add_ref o os
  | CallRelease o => release_ref o os
  end.

(** The pointees after a sequence of calls, and after each call of it. *)
Fixpoint replay (cs : list call) (os : O) : O :=
  match cs with
  | [] => os
  | c :: cs' => replay cs' (perform c os)
  end.

Fixpoint history (cs : list call) (os : O) : list O :=
  match cs with
  | [] => []
  | c :: cs' => perform c os :: history cs' (perform c os)
  end.

End Calls.

(** The calls made by [if (p) p->f();]: one on a non-null [p], none on
    [nullptr]. *)
Definition issued (f : addr -> call) (p : ptr) : list call :=
  match p with
  | Some o => [f o]
  | None => []
  end.

(** Modelled from the spec: the bodies of [AddRef()] and [Release()] are not
    part of api/scoped_refptr.h.  A counted pointee has a strong-reference
    count per object and a list, oldest first, of the objects whose
    destruction a decrement has triggered; the laws are the contract the
    spec gives: increment "increases the live strong-reference count by
    one", decrement "decreases the count by one; if the count reaches zero,
    destroys the object". *)
Class Counted (O : Type) {T : RefCountInterface O} : Type := {
  refcount : O -> addr -> Z;
  destroyed : O -> list addr;
  refcount_add_ref : forall os o o',
    refcount (add_ref o os) o' =
    if decide (o = o') then refcount os o + 1 else refcount os o';
  refcount_release_ref : forall os o o',
    refcount (release_ref o os) o' =
    if decide (o = o') then refcount os o - 1 else refcount os o';
  destroyed_add_ref : forall os o,
    destroyed (add_ref o os) = destroyed os;
  destroyed_release_ref : forall os o,
    destroyed (release_ref o os) =
    if decide (refcount os o - 1 = 0) then destroyed os ++ [o]
    else destroyed os
}.

Module RefCounted.

(** Modelled from the spec: a reference counted class is not part of
    api/scoped_refptr.h.  [counts] holds the strong-reference count of each
    object (an object without entry has count 0, as the fresh object of the
    spec's scenario has) and [destroyed_objs] lists the destroyed objects. *)
Record objects : Type := Objects {
  counts : gmap addr Z;
  destroyed_objs : list addr
}.

Definition count_of (os : objects) (o : addr) : Z :=
  default 0 (counts os !! o).

(** Modelled from the spec: the body of [AddRef()] is missing; increment
    "increases the live strong-reference count by one". *)
Definition increment (o : addr) (os : objects) : objects :=
  {| counts := <[o := count_of os o + 1]> (counts os);
     destroyed_objs := destroyed_objs os |}.

(** Modelled from the spec: the body of [Release()] is missing; decrement
    "decreases the count by one; if the count reaches zero, destroys the
    object". *)
Definition decrement (o : addr) (os : objects) : objects :=
  let n := count_of os o - 1 in
  {| counts := <[o := n]> (counts os);
     destroyed_objs := if decide (n = 0) then destroyed_objs os ++ [o]
                       else destroyed_objs os |}.

#[global] Instance counting : RefCountInterface objects := {|
  add_ref := increment;
  release_ref := decrement
|}.

End RefCounted.

Import RefCounted.

(** ** The world and its monad *)

Record world (O : Type) : Type := World {
  mem : gmap slot ptr;      (* the allocated T* cells *)
  objs : O;                 (* the pointees *)
  calls : list call         (* calls issued so far, oldest first *)
}.

Arguments World {O} _ _ _.
Arguments mem {O} _.
Arguments objs {O} _.
Arguments calls {O} _.

(** A program either fails (it touched a cell that is not allocated) or
    returns a value and the next world. *)
Definition M (O A : Type) : Type := world O -> option (A * world O).

Definition ret {O A : Type} (x : A) : M O A := fun w => Some (x, w).

Definition bind {O A B : Type} (m : M O A) (k : A -> M O B) : M O B :=
  fun w => match m w with
           | Some (x, w') => k x w'
           | None => None
           end.

Declare Scope prog_scope.
Delimit Scope prog_scope with prog.
Bind Scope prog_scope with M.

Notation "'let*' x := m 'in' k" := (bind m (fun x => k))
  (at level 10, x name, m at level 100, k at level 200,
   format "'[v' 'let*'  x  :=  m  'in' '/' k ']'") : prog_scope.
Notation "m >> k" := (bind m (fun _ => k))
  (at level 100, k at level 200, right associativity) : prog_scope.

Local Open Scope prog_scope.

Section Memory.
Context {O : Type}.

Definition load (l : slot) : M O ptr :=
  fun w => match mem w !! l with
           | Some p => Some (p, w)
           | None => None
           end.

Definition store (l : slot) (p : ptr) : M O unit :=
  fun w => match mem w !! l with
           | Some _ => Some (tt, World (<[l := p]> (mem w)) (objs w) (calls w))
           | None => None
           end.

(** Storage for a new object (an automatic variable or a temporary). *)
Definition alloc (p : ptr) : M O slot :=
  fun w => let l := fresh (dom (mem w)) in
           Some (l, World (<[l := p]> (mem w)) (objs w) (calls w)).

Definition free (l : slot) : M O unit :=
  fun w => match mem w !! l with
           | Some _ => Some (tt, World (delete l (mem w)) (objs w) (calls w))
           | None => None
           end.

(** [if (p) p->f();] *)
Definition if_nonnull (p : ptr) (f : addr -> M O unit) : M O unit :=
  match p with
  | Some o => f o
  | None => ret tt
  end.

End Memory.

Section Invocation.
Context {O : Type} {T : RefCountInterface O}.

(** [o->AddRef()] and [o->Release()]: the call is logged and performed. *)
Definition invoke (c : call) : M O unit :=
  fun w => Some (tt, World (mem w) (perform c (objs w)) (calls w ++ [c])).

Definition AddRef (o : addr) : M O unit := invoke (CallAddRef o).
Definition Release (o : addr) : M O unit := invoke (CallRelease o).

End Invocation.
(** ** scoped_refptr<T>

    Every method takes [this], the slot of the instance it is called on; a
    reference parameter [r] is the slot of the instance referred to, so that
    [this] and [r] may be the same instance. *)

Module scoped_refptr.

Section Methods.
Context {O : Type} {T : RefCountInterface O}.

(** [scoped_refptr() : ptr_(nullptr) {}] *)
Definition ctor_default : M O slot := alloc None.

(** [scoped_refptr(T* p) : ptr_(p) { if (ptr_) ptr_->AddRef(); }] *)
Definition ctor_raw (p : ptr) : M O slot :=
  let* this := alloc p in
  let* q := load this in
  if_nonnull q AddRef >>
  ret this.

(** [scoped_refptr(const scoped_refptr<T>& r) : ptr_(r.ptr_)
    { if (ptr_) ptr_->AddRef(); }] *)
Definition ctor_copy (r : slot) : M O slot :=
  let* p := load r in
  let* this := alloc p in
  let* q := load this in
  if_nonnull q AddRef >>
  ret this.

(** [T* get() const { return ptr_; }]; [operator T*()] and [operator->()]
    have the same body. *)
Definition get (this : slot) : M O ptr := load this.

(** [template <typename U> scoped_refptr(const scoped_refptr<U>& r)
    : ptr_(r.get()) { if (ptr_) ptr_->AddRef(); }] *)
Definition ctor_copy_conv (r : slot) : M O slot :=
  let* p := get r in
  let* this := alloc p in
  let* q := load this in
  if_nonnull q AddRef >>
  ret this.

(** [T* release() { T* retVal = ptr_; ptr_ = nullptr; return retVal; }] *)
Definition release (this : slot) : M O ptr :=
  let* retVal := load this in
  store this None >>
  ret retVal.

(** [scoped_refptr(scoped_refptr<T>&& r) noexcept : ptr_(r.release()) {}];
    the constructor from [scoped_refptr<U>&&] has the same body. *)
Definition ctor_move (r : slot) : M O slot :=
  let* p := release r in
  alloc p.

(** [~scoped_refptr() { if (ptr_) ptr_->Release(); }] *)
Definition dtor (this : slot) : M O unit :=
  let* p := load this in
  if_nonnull p Release.

(** End of the lifetime of an instance: its destructor runs, then its
    storage goes away. *)
Definition destroy (this : slot) : M O unit :=
  dtor this >>
  free this.

(** [scoped_refptr<T>& operator=(T* p) {
      if (p) p->AddRef();
      if (ptr_) ptr_->Release();
      ptr_ = p;
      return *this; }] *)
Definition assign_raw (this : slot) (p : ptr) : M O slot :=
  if_nonnull p AddRef >>
  let* q := load this in
  if_nonnull q Release >>
  store this p >>
  ret this.

(** [scoped_refptr<T>& operator=(const scoped_refptr<T>& r)
    { return *this = r.ptr_; }] *)
Definition assign_copy (this r : slot) : M O slot :=
  let* p := load r in
  assign_raw this p.

(** [template <typename U>
    scoped_refptr<T>& operator=(const scoped_refptr<U>& r)
    { return *this = r.get(); }] *)
Definition assign_copy_conv (this r : slot) : M O slot :=
  let* p := get r in
  assign_raw this p.

(** [void swap(T** pp) noexcept { T* p = ptr_; ptr_ = *pp; *pp = p; }] *)
Definition swap_raw (this pp : slot) : M O unit :=
  let* p := load this in
  let* q := load pp in
  store this q >>
  store pp p.

(** [void swap(scoped_refptr<T>& r) noexcept { swap(&r.ptr_); }] *)
Definition swap (this r : slot) : M O unit := swap_raw this r.

(** [scoped_refptr<T>& operator=(scoped_refptr<T>&& r) noexcept {
      scoped_refptr<T>(std::move(r)).swap( *this);
      return *this; }]
    The temporary lives until the end of the full expression; the
    operator taking [scoped_refptr<U>&&] has the same body. *)
Definition assign_move (this r : slot) : M O slot :=
  let* tmp := ctor_move r in
  swap tmp this >>
  destroy tmp >>
  ret this.

End Methods.

End scoped_refptr.

Import scoped_refptr.

(** The spec's wording of copy assignment: it "delegates to assign raw
    pointer using r.get()". *)
Definition assign_via_get {O : Type} {T : RefCountInterface O}
    (this r : slot) : M O slot :=
  fun w => match get r w with
           | Some (p, w1) => assign_raw this p w1
           | None => None
           end.

(** A small world for the examples: instance 1 holds object 5, instance 2
    holds object 6, instance 3 is null; object 5 has one reference and
    object 6 has two. *)
Definition w_ex : world objects :=
  World {[ 1%positive := Some 5%positive;
           2%positive := Some 6%positive;
           3%positive := None ]}
        (Objects {[ 5%positive := 1; 6%positive := 2 ]} [])
        [].

(** The first scenario of the spec, on the object 7: construct [w1] from the
    raw pointer, copy it into [w2], assign [nullptr] to [w1], destroy [w2].
    The counts of the object after each step are returned. *)
Definition refcount_now (o : addr) : M objects Z :=
  fun w => Some (count_of (objs w) o, w).

Definition scenario_share : M objects (list Z * ptr) :=
  let* w1 := ctor_raw (Some 7%positive) in
  let* n1 := refcount_now 7%positive in
  let* w2 := ctor_copy w1 in
  let* n2 := refcount_now 7%positive in
  assign_raw w1 None >>
  let* n3 := refcount_now 7%positive in
  let* p := get w1 in
  destroy w2 >>
  let* n4 := refcount_now 7%positive in
  ret ([n1; n2; n3; n4], p).

(** The second scenario: [w1] holds the object, [release()] hands it out. *)
Definition scenario_release : M objects (ptr * ptr * Z) :=
  let* w1 := ctor_raw (Some 7%positive) in
  let* p := release w1 in
  let* q := get w1 in
  let* n := refcount_now 7%positive in
  ret (p, q, n).

Definition w_empty : world objects := World ∅ (Objects ∅ []) [].

(** ** Who holds what *)

(** Number of allocated cells that hold the object [o]. *)
Definition holders (m : gmap slot ptr) (o : addr) : Z :=
  Z.of_nat (size (filter (fun kv : slot * ptr => kv.2 = Some o) m)).

(** The references to [o] that no cell accounts for: the count of [o] minus
    the number of cells holding it.  They belong to whoever called
    [AddRef()] by hand or took a pointer out with [release()]. *)
Definition outside_refs {O : Type} {T : RefCountInterface O} {C : Counted O}
    (w : world O) (o : addr) : Z :=
  refcount (objs w) o - holders (mem w) o.

(** ** Statements built from the methods *)

Section Statements.
Context {O : Type} {T : RefCountInterface O}.

(** [{ scoped_refptr<T> foo; }]: a default constructed instance that goes
    out of scope. *)
Definition scope_default : M O unit :=
  let* foo := ctor_default in
  destroy foo.

(** The sample [some_function] of the header:
    [{ scoped_refptr<MyFoo> foo = p; ... }], where "foo is released when
    this function returns". *)
Definition scope_raw (p : ptr) : M O unit :=
  let* foo := ctor_raw p in
  destroy foo.

(** [a = scoped_refptr<T>(p);]: the temporary is constructed from the raw
    pointer, move-assigned from, and destroyed at the end of the statement. *)
Definition assign_temporary (this : slot) (p : ptr) : M O slot :=
  let* tmp := ctor_raw p in
  assign_move this tmp >>
  destroy tmp >>
  ret this.

(** [scoped_refptr<T> b(std::move(a)); a = std::move(b);], returning [b]. *)
Definition move_out_and_back (a : slot) : M O slot :=
  let* b := ctor_move a in
  assign_move a b >>
  ret b.

(** [a = r; r = nullptr;]: what [a = std::move(r);] would be without move
    assignment. *)
Definition copy_then_reset (a r : slot) : M O slot :=
  assign_copy a r >>
  assign_raw r None.

End Statements.

(** * Properties *)

(** ** The pointee's counter *)

Lemma replay_app {O : Type} {T : RefCountInterface O} cs1 cs2 (os : O) :
  replay (cs1 ++ cs2) os = replay cs2 (replay cs1 os).
Proof.
  revert os. induction cs1 as [|c cs1 IH]; intros os; simpl.
  - reflexivity.
  - apply IH.
Qed.

Section Counter.
Implicit Types (os : objects) (o : addr).

Lemma count_of_increment os o o' :
  count_of (increment o os) o' =
  if decide (o = o') then count_of os o + 1 else count_of os o'.
Proof.
  unfold count_of at 1, increment; simpl.
  rewrite lookup_insert. destruct (decide (o = o')); subst; reflexivity.
Qed.

Lemma count_of_decrement os o o' :
  count_of (decrement o os) o' =
  if decide (o = o') then count_of os o - 1 else count_of os o'.
Proof.
  unfold count_of at 1, decrement; simpl.
  rewrite lookup_insert. destruct (decide (o = o')); subst; reflexivity.
Qed.

End Counter.

(** The counter of [RefCounted] obeys the contract. *)
#[global] Instance counting_counted : Counted objects := {|
  refcount := count_of;
  destroyed := destroyed_objs;
  refcount_add_ref := count_of_increment;
  refcount_release_ref := count_of_decrement;
  destroyed_add_ref := fun _ _ => eq_refl;
  destroyed_release_ref := fun _ _ => eq_refl
|}.

(** Consequences of the contract, for any counted pointee. *)
Section Contract.
Context {O : Type} {T : RefCountInterface O} {C : Counted O}.
Implicit Types (os : O) (o : addr).

Lemma refcount_add_ref_same os o :
  refcount (add_ref o os) o = refcount os o + 1.
Proof. rewrite refcount_add_ref. apply decide_True. reflexivity. Qed.

Lemma destroyed_release_ref_keep os o :
  refcount os o <> 1 -> destroyed (release_ref o os) = destroyed os.
Proof.
  intros Hn. rewrite destroyed_release_ref.
  apply decide_False. lia.
Qed.

(** An increment followed by a decrement of the same object gives back
    every count. *)
Lemma refcount_add_release os o o' :
  refcount (release_ref o (add_ref o os)) o' = refcount os o'.
Proof.
  rewrite refcount_release_ref, !refcount_add_ref.
  destruct (decide (o = o')); [|reflexivity].
  subst. rewrite decide_True by reflexivity. lia.
Qed.

End Contract.

(** ** Running programs *)

Section Running.
Context {O : Type} {T : RefCountInterface O}.
Implicit Types (w : world O) (l : slot) (p q : ptr).

Lemma world_eta w : World (mem w) (objs w) (calls w) = w.
Proof. destruct w; reflexivity. Qed.

Lemma bind_run {A B : Type} (m : M O A) (k : A -> M O B) w x w' :
  m w = Some (x, w') -> bind m k w = k x w'.
Proof. intros Hm. unfold bind. rewrite Hm. reflexivity. Qed.

Lemma load_run w l p : mem w !! l = Some p -> load l w = Some (p, w).
Proof. intros Hl. unfold load. rewrite Hl. reflexivity. Qed.

Lemma store_run w l p q :
  mem w !! l = Some q ->
  store l p w = Some (tt, World (<[l := p]> (mem w)) (objs w) (calls w)).
Proof. intros Hl. unfold store. rewrite Hl. reflexivity. Qed.

Lemma free_run w l q :
  mem w !! l = Some q ->
  free l w = Some (tt, World (delete l (mem w)) (objs w) (calls w)).
Proof. intros Hl. unfold free. rewrite Hl. reflexivity. Qed.

(** The slot [alloc] picks is not in use. *)
Lemma fresh_unused (m : gmap slot ptr) : m !! fresh (dom m) = None.
Proof. apply not_elem_of_dom, is_fresh. Qed.

Lemma fresh_differs (m : gmap slot ptr) l q :
  m !! l = Some q -> fresh (dom m) <> l.
Proof.
  intros Hl Heq. pose proof (fresh_unused m) as Hf.
  rewrite Heq in Hf. congruence.
Qed.

Lemma if_nonnull_run (f : addr -> call) p w :
  if_nonnull p (fun o => invoke (f o)) w =
  Some (tt, World (mem w) (replay (issued f p) (objs w))
                  (calls w ++ issued f p)).
Proof.
  destruct p as [o|]; simpl.
  - reflexivity.
  - unfold ret. rewrite app_nil_r, world_eta. reflexivity.
Qed.

Lemma if_nonnull_AddRef p w :
  if_nonnull p AddRef w =
  Some (tt, World (mem w) (replay (issued CallAddRef p) (objs w))
                  (calls w ++ issued CallAddRef p)).
Proof. apply (if_nonnull_run CallAddRef). Qed.

Lemma if_nonnull_Release p w :
  if_nonnull p Release w =
  Some (tt, World (mem w) (replay (issued CallRelease p) (objs w))
                  (calls w ++ issued CallRelease p)).
Proof. apply (if_nonnull_run CallRelease). Qed.

End Running.

(** [run] executes the next statement of a program whose cells are known
    from the context. *)
Ltac run_step :=
  first
    [ erewrite bind_run by
        first [ apply if_nonnull_AddRef
              | apply if_nonnull_Release
              | eapply load_run; simpl; simplify_map_eq; eauto
              | eapply store_run; simpl; simplify_map_eq; eauto
              | eapply free_run; simpl; simplify_map_eq; eauto
              | reflexivity ]
    | progress simpl ].

Ltac run := repeat run_step.

(** ** What each method returns *)

Section MethodResults.
Context {O : Type} {T : RefCountInterface O}.
Implicit Types (w : world O) (a b r : slot) (p t : ptr).

Lemma release_run w a t :
  mem w !! a = Some t ->
  release a w = Some (t, World (<[a := None]> (mem w)) (objs w) (calls w)).
Proof.
  intros Ha. unfold release.
  rewrite (bind_run _ _ w t w) by (apply load_run; exact Ha).
  rewrite (bind_run _ _ _ _ _ (store_run w a None t Ha)).
  reflexivity.
Qed.

Lemma assign_raw_run w a t p :
  mem w !! a = Some t ->
  assign_raw a p w =
  Some (a, World (<[a := p]> (mem w))
                 (replay (issued CallAddRef p ++ issued CallRelease t) (objs w))
                 (calls w ++ issued CallAddRef p ++ issued CallRelease t)).
Proof.
  intros Ha. unfold assign_raw. run.
  unfold ret. rewrite replay_app, app_assoc. reflexivity.
Qed.

Lemma ctor_raw_run w p :
  ctor_raw p w =
  Some (fresh (dom (mem w)),
        World (<[fresh (dom (mem w)) := p]> (mem w))
              (replay (issued CallAddRef p) (objs w))
              (calls w ++ issued CallAddRef p)).
Proof. unfold ctor_raw, alloc. run. reflexivity. Qed.

Lemma ctor_copy_run w r t :
  mem w !! r = Some t ->
  ctor_copy r w =
  Some (fresh (dom (mem w)),
        World (<[fresh (dom (mem w)) := t]> (mem w))
              (replay (issued CallAddRef t) (objs w))
              (calls w ++ issued CallAddRef t)).
Proof. intros Hr. unfold ctor_copy, alloc. run. reflexivity. Qed.

Lemma ctor_move_run w r t :
  mem w !! r = Some t ->
  ctor_move r w =
  Some (fresh (dom (mem w)),
        World (<[fresh (dom (mem w)) := t]> (<[r := None]> (mem w)))
              (objs w) (calls w)).
Proof.
  intros Hr. unfold ctor_move.
  rewrite (bind_run _ _ _ _ _ (release_run w r t Hr)).
  unfold alloc; simpl. rewrite dom_insert_lookup_L by eauto. reflexivity.
Qed.

Lemma dtor_run w a t :
  mem w !! a = Some t ->
  dtor a w =
  Some (tt, World (mem w) (replay (issued CallRelease t) (objs w))
                  (calls w ++ issued CallRelease t)).
Proof. intros Ha. unfold dtor. run. apply if_nonnull_Release. Qed.

Lemma destroy_run w a t :
  mem w !! a = Some t ->
  destroy a w =
  Some (tt, World (delete a (mem w))
                  (replay (issued CallRelease t) (objs w))
                  (calls w ++ issued CallRelease t)).
Proof.
  intros Ha. unfold destroy.
  rewrite (bind_run _ _ _ _ _ (dtor_run w a t Ha)).
  erewrite free_run by exact Ha. reflexivity.
Qed.

Lemma swap_run w a b ta tb :
  mem w !! a = Some ta ->
  mem w !! b = Some tb ->
  swap a b w =
  Some (tt, World (<[b := ta]> (<[a := tb]> (mem w))) (objs w) (calls w)).
Proof.
  intros Ha Hb. unfold swap, swap_raw. run.
  erewrite store_run; [reflexivity|].
  simpl. rewrite lookup_insert. destruct (decide (a = b)); eauto.
Qed.

End MethodResults.

(** ** Move assignment, step by step *)

Section MoveAssignment.
Context {O : Type} {T : RefCountInterface O}.
Variables (w : world O) (a r : slot) (ta tr : ptr).
Hypothesis Ha : mem w !! a = Some ta.
Hypothesis Hr : mem w !! r = Some tr.

(** The statements of [a = std::move(r)] one after the other; [tmp] is the
    temporary and [ta'] is what [a] holds once [r] has been released. *)
Lemma assign_move_steps :
  let tmp := fresh (dom (mem w)) in
  let ta' := if decide (a = r) then None else ta in
  exists w1 w2 w3,
    ctor_move r w = Some (tmp, w1) /\
    mem w1 !! tmp = Some tr /\ mem w1 !! a = Some ta' /\
    swap tmp a w1 = Some (tt, w2) /\
    mem w2 !! tmp = Some ta' /\ mem w2 !! a = Some tr /\
    calls w2 = calls w /\ objs w2 = objs w /\
    destroy tmp w2 = Some (tt, w3) /\
    assign_move a r w = Some (a, w3) /\
    w3 = World (<[a := tr]> (<[r := None]> (mem w)))
               (replay (issued CallRelease ta') (objs w))
               (calls w ++ issued CallRelease ta').
Proof.
  intros tmp ta'.
  assert (Hta : tmp <> a) by (apply (fresh_differs _ _ _ Ha)).
  assert (Htr : tmp <> r) by (apply (fresh_differs _ _ _ Hr)).
  pose proof (fresh_unused (mem w)) as Hfresh. fold tmp in Hfresh.
  pose proof (ctor_move_run w r tr Hr) as H1. fold tmp in H1.
  set (w1 := World (<[tmp := tr]> (<[r := None]> (mem w)))
                   (objs w) (calls w)) in *.
  assert (H1t : mem w1 !! tmp = Some tr) by apply lookup_insert_eq.
  assert (H1a : mem w1 !! a = Some ta').
  { simpl. rewrite lookup_insert_ne by exact Hta.
    rewrite lookup_insert. subst ta'.
    destruct (decide (r = a)) as [->|Hne].
    - rewrite decide_True; reflexivity.
    - rewrite decide_False by congruence. exact Ha. }
  pose proof (swap_run w1 tmp a tr ta' H1t H1a) as H2.
  set (w2 := World (<[a := tr]> (<[tmp := ta']> (mem w1)))
                   (objs w1) (calls w1)) in *.
  assert (H2t : mem w2 !! tmp = Some ta').
  { simpl. rewrite lookup_insert_ne by congruence. apply lookup_insert_eq. }
  pose proof (destroy_run w2 tmp ta' H2t) as H3.
  exists w1, w2. eexists.
  split; [exact H1|]. split; [exact H1t|]. split; [exact H1a|].
  split; [exact H2|]. split; [exact H2t|].
  split; [apply lookup_insert_eq|].
  split; [reflexivity|]. split; [reflexivity|].
  split; [exact H3|].
  split.
  - unfold assign_move.
    rewrite (bind_run _ _ _ _ _ H1), (bind_run _ _ _ _ _ H2),
            (bind_run _ _ _ _ _ H3).
    reflexivity.
  - f_equal. simpl. apply map_eq. intros l.
    destruct (decide (l = tmp)) as [->|Hlt].
    + rewrite lookup_delete_eq, lookup_insert_ne by congruence.
      rewrite lookup_insert_ne by congruence. symmetry. exact Hfresh.
    + rewrite lookup_delete_ne by congruence.
      destruct (decide (l = a)) as [->|Hla].
      * rewrite !lookup_insert_eq. reflexivity.
      * rewrite !(lookup_insert_ne _ a) by congruence.
        rewrite !(lookup_insert_ne _ tmp) by congruence. reflexivity.
Qed.

End MoveAssignment.

(** ** Assignment of a raw pointer *)

(** C1. On an instance [a] holding [t], [a = p] runs as the increment of [p]
    (if non-null), then the decrement of [t] (if non-null), then the store of
    [p]: the log grows by exactly these calls in this order and [a] ends up
    holding [p].  When [p] is the object [a] already holds and its count is
    at least one, the count stays at least one after each of the two calls,
    no destruction is triggered, and every count is afterwards what it was. *)
Theorem assign_raw_addref_first
    {O : Type} {T : RefCountInterface O} {C : Counted O}
    (w : world O) (a : slot) (t p : ptr) :
  mem w !! a = Some t ->
  exists w',
    assign_raw a p w = Some (a, w') /\
    assign_raw a p w =
      (if_nonnull p AddRef >> if_nonnull t Release >> store a p >> ret a) w /\
    calls w' = calls w ++ issued CallAddRef p ++ issued CallRelease t /\
    objs w' = replay (issued CallAddRef p ++ issued CallRelease t) (objs w) /\
    mem w' = <[a := p]> (mem w) /\
    forall o, p = Some o -> t = Some o -> 1 <= refcount (objs w) o ->
      Forall (fun os => 1 <= refcount os o /\
                        destroyed os = destroyed (objs w))
             (history (issued CallAddRef p ++ issued CallRelease t) (objs w)) /\
      destroyed (objs w') = destroyed (objs w) /\
      forall o', refcount (objs w') o' = refcount (objs w) o'.
Proof.
  intros Ha. rewrite (assign_raw_run w a t p Ha).
  eexists. split; [reflexivity|]. split.
  { run. unfold ret. rewrite replay_app, app_assoc. reflexivity. }
  simpl. do 3 (split; [reflexivity|]).
  intros o -> -> Hn. simpl.
  pose proof (refcount_add_ref_same (objs w) o) as Hadd.
  assert (Hkeep : destroyed (release_ref o (add_ref o (objs w))) =
                  destroyed (objs w)).
  { rewrite destroyed_release_ref_keep by lia. apply destroyed_add_ref. }
  split; [|split].
  - constructor; [split; [lia | apply destroyed_add_ref]|].
    constructor; [|constructor].
    split; [|exact Hkeep].
    rewrite refcount_add_release. exact Hn.
  - exact Hkeep.
  - intros o'. apply refcount_add_release.
Qed.

Lemma assign_raw_addref_first_witness :
  exists w',
    assign_raw 1%positive (Some 5%positive) w_ex = Some (1%positive, w') /\
    calls w' = [CallAddRef 5%positive; CallRelease 5%positive] /\
    mem w' !! 1%positive = Some (Some 5%positive) /\
    destroyed (objs w') = [] /\
    refcount (objs w') 5%positive = 1.
Proof.
  destruct (assign_raw_addref_first w_ex 1%positive (Some 5%positive)
              (Some 5%positive) eq_refl)
    as (w' & Hrun & _ & Hcalls & _ & Hmem & Hself).
  destruct (Hself 5%positive eq_refl eq_refl) as (_ & Hd & Hc).
  { vm_compute. discriminate. }
  exists w'. repeat split.
  - exact Hrun.
  - exact Hcalls.
  - rewrite Hmem. apply lookup_insert_eq.
  - exact Hd.
  - rewrite Hc. reflexivity.
Defined.

(** ** Construction *)

(** C2. [scoped_refptr(p)] calls [AddRef] on [p] exactly once when [p] is
    non-null and makes no call when it is null; in both cases the new
    instance holds [p], which [get()] returns. *)
Theorem ctor_raw_addref_once {O : Type} {T : RefCountInterface O}
    (w : world O) (p : ptr) :
  exists b w',
    ctor_raw p w = Some (b, w') /\
    mem w !! b = None /\
    mem w' = <[b := p]> (mem w) /\
    get b w' = Some (p, w') /\
    calls w' = calls w ++ match p with
                          | Some o => [CallAddRef o]
                          | None => []
                          end /\
    objs w' = match p with
              | Some o => add_ref o (objs w)
              | None => objs w
              end.
Proof.
  exists (fresh (dom (mem w))). eexists.
  split; [apply ctor_raw_run|]. simpl.
  split; [apply fresh_unused|].
  split; [reflexivity|].
  split; [apply load_run; simpl; apply lookup_insert_eq|].
  split; destruct p; reflexivity.
Qed.

(** With the counter of the spec, the object handed to the constructor has
    one reference more afterwards. *)
Lemma ctor_raw_counts {O : Type} {T : RefCountInterface O} {C : Counted O}
    (w : world O) (o : addr) :
  exists b w',
    ctor_raw (Some o) w = Some (b, w') /\
    refcount (objs w') o = refcount (objs w) o + 1.
Proof.
  exists (fresh (dom (mem w))). eexists.
  split; [apply ctor_raw_run|]. simpl.
  apply refcount_add_ref_same.
Qed.

(** C5. Copying an instance [a] that holds the object [o] calls [AddRef] on
    [o] exactly once, leaves [a] as it was and gives a new instance [b]
    holding [o]; destroying [b] then calls [Release] on [o] exactly once,
    and every count is back at its value before the copy. *)
Theorem copy_then_destroy_roundtrip
    {O : Type} {T : RefCountInterface O} {C : Counted O}
    (w : world O) (a : slot) (o : addr) :
  mem w !! a = Some (Some o) ->
  exists b w1 w2,
    ctor_copy a w = Some (b, w1) /\
    b <> a /\
    calls w1 = calls w ++ [CallAddRef o] /\
    refcount (objs w1) o = refcount (objs w) o + 1 /\
    mem w1 !! a = Some (Some o) /\
    get b w1 = Some (Some o, w1) /\
    get a w1 = Some (Some o, w1) /\
    destroy b w1 = Some (tt, w2) /\
    calls w2 = calls w1 ++ [CallRelease o] /\
    mem w2 = mem w /\
    forall o', refcount (objs w2) o' = refcount (objs w) o'.
Proof.
  intros Ha.
  pose proof (fresh_differs _ _ _ Ha) as Hne.
  pose proof (fresh_unused (mem w)) as Hfresh.
  set (b := fresh (dom (mem w))) in *.
  exists b. eexists. eexists.
  split; [apply (ctor_copy_run w a (Some o) Ha)|]. fold b. simpl.
  split; [exact Hne|].
  split; [reflexivity|].
  split; [apply refcount_add_ref_same|].
  split; [rewrite lookup_insert_ne by exact Hne; exact Ha|].
  split; [apply load_run; simpl; apply lookup_insert_eq|].
  split; [apply load_run; simpl; rewrite lookup_insert_ne by exact Hne;
          exact Ha|].
  split.
  { erewrite destroy_run by (simpl; apply lookup_insert_eq). reflexivity. }
  simpl. split; [reflexivity|].
  split; [apply delete_insert_id; exact Hfresh|].
  intros o'. apply refcount_add_release.
Qed.

Lemma copy_then_destroy_roundtrip_witness :
  exists b w1 w2,
    ctor_copy 2%positive w_ex = Some (b, w1) /\
    refcount (objs w1) 6%positive = 3 /\
    destroy b w1 = Some (tt, w2) /\
    calls w2 = [CallAddRef 6%positive; CallRelease 6%positive] /\
    refcount (objs w2) 6%positive = 2.
Proof.
  destruct (copy_then_destroy_roundtrip w_ex 2%positive 6%positive eq_refl)
    as (b & w1 & w2 & Hc & _ & Hc1 & Hn1 & _ & _ & _ & Hd & Hc2 & _ & Hn2).
  exists b, w1, w2. repeat split.
  - exact Hc.
  - rewrite Hn1. reflexivity.
  - exact Hd.
  - rewrite Hc2, Hc1. reflexivity.
  - rewrite Hn2. reflexivity.
Defined.

(** C4. Move construction from an instance [a] (null or not) makes no
    [AddRef] and no [Release] call, so the pointees are untouched; [a] is
    null afterwards and the new instance holds what [a] held. *)
Theorem ctor_move_steals {O : Type} (w : world O) (a : slot) (t : ptr) :
  mem w !! a = Some t ->
  exists b w',
    ctor_move a w = Some (b, w') /\
    b <> a /\
    mem w !! b = None /\
    mem w' = <[b := t]> (<[a := None]> (mem w)) /\
    get a w' = Some (None, w') /\
    get b w' = Some (t, w') /\
    calls w' = calls w /\
    objs w' = objs w.
Proof.
  intros Ha.
  pose proof (fresh_differs _ _ _ Ha) as Hne.
  exists (fresh (dom (mem w))). eexists.
  split; [apply (ctor_move_run w a t Ha)|]. simpl.
  split; [exact Hne|].
  split; [apply fresh_unused|].
  split; [reflexivity|].
  split.
  { apply load_run; simpl.
    rewrite lookup_insert_ne by exact Hne. apply lookup_insert_eq. }
  split; [apply load_run; simpl; apply lookup_insert_eq|].
  split; reflexivity.
Qed.

Lemma ctor_move_steals_witness :
  exists b w',
    ctor_move 1%positive w_ex = Some (b, w') /\
    get 1%positive w' = Some (None, w') /\
    get b w' = Some (Some 5%positive, w') /\
    calls w' = [] /\
    objs w' = objs w_ex.
Proof.
  destruct (ctor_move_steals w_ex 1%positive (Some 5%positive) eq_refl)
    as (b & w' & Hm & _ & _ & _ & Hga & Hgb & Hc & Ho).
  exists b, w'. repeat split; assumption.
Defined.

(** C6. For two distinct instances [a] and [r], [a = std::move(r)] calls
    [Release] exactly once on what [a] held if that was non-null, makes no
    [AddRef] call, leaves [r] null and leaves [a] holding what [r] held. *)
Theorem assign_move_distinct {O : Type} {T : RefCountInterface O}
    (w : world O) (a r : slot) (ta tr : ptr) :
  a <> r ->
  mem w !! a = Some ta ->
  mem w !! r = Some tr ->
  exists w',
    assign_move a r w = Some (a, w') /\
    calls w' = calls w ++ match ta with
                          | Some o => [CallRelease o]
                          | None => []
                          end /\
    objs w' = match ta with
              | Some o => release_ref o (objs w)
              | None => objs w
              end /\
    mem w' = <[a := tr]> (<[r := None]> (mem w)) /\
    get r w' = Some (None, w') /\
    get a w' = Some (tr, w').
Proof.
  intros Hne Ha Hr.
  destruct (assign_move_steps w a r ta tr Ha Hr)
    as (w1 & w2 & w3 & _ & _ & _ & _ & _ & _ & _ & _ & _ & Hrun & ->).
  rewrite decide_False in Hrun by exact Hne.
  eexists. split; [exact Hrun|]. simpl.
  split; [destruct ta; reflexivity|].
  split; [destruct ta; reflexivity|].
  split; [reflexivity|].
  split; apply load_run; simpl.
  - rewrite lookup_insert_ne by exact Hne. apply lookup_insert_eq.
  - apply lookup_insert_eq.
Qed.

Lemma assign_move_distinct_witness :
  exists w',
    assign_move 1%positive 2%positive w_ex = Some (1%positive, w') /\
    calls w' = [CallRelease 5%positive] /\
    get 2%positive w' = Some (None, w') /\
    get 1%positive w' = Some (Some 6%positive, w').
Proof.
  destruct (assign_move_distinct w_ex 1%positive 2%positive
              (Some 5%positive) (Some 6%positive))
    as (w' & Hrun & Hc & _ & _ & Hgr & Hga).
  - discriminate.
  - reflexivity.
  - reflexivity.
  - exists w'. repeat split; assumption.
Defined.

(** C9. [a = std::move(a)] changes nothing and makes no call: the temporary
    takes the pointer of [a] by [release()], [swap] hands it back, and the
    temporary is destroyed holding null. *)
Theorem assign_move_self {O : Type} {T : RefCountInterface O}
    (w : world O) (a : slot) (t : ptr) :
  mem w !! a = Some t ->
  exists tmp w1 w2 w',
    ctor_move a w = Some (tmp, w1) /\
    mem w1 !! tmp = Some t /\ mem w1 !! a = Some None /\
    swap tmp a w1 = Some (tt, w2) /\
    mem w2 !! tmp = Some None /\ mem w2 !! a = Some t /\
    destroy tmp w2 = Some (tt, w') /\
    assign_move a a w = Some (a, w') /\
    get a w' = Some (t, w') /\
    calls w' = calls w /\
    objs w' = objs w /\
    w' = w.
Proof.
  intros Ha.
  destruct (assign_move_steps w a a t t Ha Ha)
    as (w1 & w2 & w3 & H1 & H1t & H1a & H2 & H2t & H2a & _ & _ & H3 & Hrun
        & Hw3).
  rewrite decide_True in H1a, H2t, Hw3 by reflexivity.
  assert (Hw : w3 = w).
  { rewrite Hw3. simpl. rewrite app_nil_r, insert_insert_eq.
    rewrite (insert_id _ _ _ Ha). apply world_eta. }
  exists (fresh (dom (mem w))), w1, w2, w3.
  split; [exact H1|]. split; [exact H1t|]. split; [exact H1a|].
  split; [exact H2|]. split; [exact H2t|]. split; [exact H2a|].
  split; [exact H3|]. split; [exact Hrun|].
  rewrite Hw. split; [apply load_run; exact Ha|].
  repeat split.
Qed.

Lemma assign_move_self_witness :
  exists w',
    assign_move 1%positive 1%positive w_ex = Some (1%positive, w') /\
    get 1%positive w' = Some (Some 5%positive, w') /\
    calls w' = [] /\
    w' = w_ex.
Proof.
  destruct (assign_move_self w_ex 1%positive (Some 5%positive) eq_refl)
    as (tmp & w1 & w2 & w' & _ & _ & _ & _ & _ & _ & _ & Hrun & Hg & Hc
        & _ & Hw).
  exists w'. repeat split; assumption.
Defined.

(** ** release() *)

(** C3. On an instance holding the object [o], [release()] returns the
    pointer to [o], leaves the instance null and makes no call. *)
Theorem release_nonnull {O : Type} (w : world O) (a : slot) (o : addr) :
  mem w !! a = Some (Some o) ->
  exists w',
    release a w = Some (Some o, w') /\
    get a w' = Some (None, w') /\
    mem w' = <[a := None]> (mem w) /\
    calls w' = calls w /\
    objs w' = objs w.
Proof.
  intros Ha. eexists.
  split; [apply (release_run w a (Some o) Ha)|].
  split; [apply load_run; simpl; apply lookup_insert_eq|].
  repeat split.
Qed.

Lemma release_nonnull_witness :
  exists w',
    release 2%positive w_ex = Some (Some 6%positive, w') /\
    get 2%positive w' = Some (None, w') /\
    calls w' = [] /\
    objs w' = objs w_ex.
Proof.
  destruct (release_nonnull w_ex 2%positive 6%positive eq_refl)
    as (w' & Hrun & Hg & _ & Hc & Ho).
  exists w'. repeat split; assumption.
Defined.

(** C10. On a null instance, [release()] returns [nullptr], leaves the
    instance null and makes no call: the world is the one it started in. *)
Theorem release_null {O : Type} (w : world O) (a : slot) :
  mem w !! a = Some None ->
  exists w',
    release a w = Some (None, w') /\
    get a w' = Some (None, w') /\
    calls w' = calls w /\
    objs w' = objs w /\
    w' = w.
Proof.
  intros Ha. exists w.
  split.
  - rewrite (release_run w a None Ha), (insert_id _ _ _ Ha), world_eta.
    reflexivity.
  - split; [apply load_run; exact Ha|]. repeat split.
Qed.

Lemma release_null_witness :
  exists w',
    release 3%positive w_ex = Some (None, w') /\
    get 3%positive w' = Some (None, w') /\
    calls w' = [] /\
    w' = w_ex.
Proof.
  destruct (release_null w_ex 3%positive eq_refl)
    as (w' & Hrun & Hg & Hc & _ & Hw).
  exists w'. repeat split; assumption.
Defined.

(** ** swap *)

(** C7. [a.swap(b)] exchanges what the two instances hold, touches no other
    cell and makes no call; doing it a second time gives back the world
    before the first. *)
Theorem swap_exchanges_twice_restores {O : Type}
    (w : world O) (a b : slot) (ta tb : ptr) :
  mem w !! a = Some ta ->
  mem w !! b = Some tb ->
  exists w',
    swap a b w = Some (tt, w') /\
    get a w' = Some (tb, w') /\
    get b w' = Some (ta, w') /\
    (forall l, l <> a -> l <> b -> mem w' !! l = mem w !! l) /\
    calls w' = calls w /\
    objs w' = objs w /\
    swap a b w' = Some (tt, w).
Proof.
  intros Ha Hb.
  assert (Hab : a = b -> ta = tb) by (intros ->; congruence).
  set (w' := World (<[b := ta]> (<[a := tb]> (mem w))) (objs w) (calls w)).
  assert (Ha' : mem w' !! a = Some tb).
  { simpl. rewrite lookup_insert.
    destruct (decide (b = a)) as [->|Hne].
    - f_equal. apply Hab. reflexivity.
    - apply lookup_insert_eq. }
  assert (Hb' : mem w' !! b = Some ta) by apply lookup_insert_eq.
  exists w'.
  split; [apply (swap_run w a b ta tb Ha Hb)|].
  split; [apply load_run; exact Ha'|].
  split; [apply load_run; exact Hb'|].
  split.
  { intros l Hla Hlb. simpl. rewrite !lookup_insert_ne by congruence.
    reflexivity. }
  split; [reflexivity|]. split; [reflexivity|].
  rewrite (swap_run w' a b tb ta Ha' Hb'). simpl.
  do 2 f_equal. rewrite <- (world_eta w). simpl. f_equal.
  apply map_eq. intros l.
  destruct (decide (l = b)) as [->|Hlb].
  - rewrite lookup_insert_eq. symmetry. exact Hb.
  - rewrite lookup_insert_ne by congruence.
    destruct (decide (l = a)) as [->|Hla].
    + rewrite lookup_insert_eq. symmetry. exact Ha.
    + rewrite !lookup_insert_ne by congruence. reflexivity.
Qed.

Lemma swap_exchanges_twice_restores_witness :
  exists w',
    swap 1%positive 2%positive w_ex = Some (tt, w') /\
    get 1%positive w' = Some (Some 6%positive, w') /\
    get 2%positive w' = Some (Some 5%positive, w') /\
    calls w' = [] /\
    swap 1%positive 2%positive w' = Some (tt, w_ex).
Proof.
  destruct (swap_exchanges_twice_restores w_ex 1%positive 2%positive
              (Some 5%positive) (Some 6%positive) eq_refl eq_refl)
    as (w' & Hrun & Hga & Hgb & _ & Hc & _ & Hback).
  exists w'. repeat split; assumption.
Defined.

(** ** Copy assignment *)

(** C8. [a = r] for a reference [r] to an instance, of [T] or of a subclass,
    is [a = r.get()]: the program read off the code and the one read off the
    spec return the same value and the same world, namely the result of
    assigning the raw pointer [r] holds, with the same calls in the same
    order; [r] holds afterwards what it held before. *)
Theorem assign_copy_is_assign_raw {O : Type} {T : RefCountInterface O}
    (w : world O) (a r : slot) (ta tr : ptr) :
  mem w !! a = Some ta ->
  mem w !! r = Some tr ->
  get r w = Some (tr, w) /\
  assign_copy a r w = assign_via_get a r w /\
  assign_copy_conv a r w = assign_via_get a r w /\
  assign_via_get a r w = assign_raw a tr w /\
  exists w',
    assign_raw a tr w = Some (a, w') /\
    calls w' = calls w ++ issued CallAddRef tr ++ issued CallRelease ta /\
    objs w' = replay (issued CallAddRef tr ++ issued CallRelease ta) (objs w) /\
    mem w' = <[a := tr]> (mem w) /\
    get a w' = Some (tr, w') /\
    get r w' = Some (tr, w').
Proof.
  intros Ha Hr.
  assert (Hget : get r w = Some (tr, w)) by (apply load_run; exact Hr).
  split; [exact Hget|].
  split; [reflexivity|].
  split; [reflexivity|].
  split; [unfold assign_via_get; rewrite Hget; reflexivity|].
  eexists. split; [apply (assign_raw_run w a ta tr Ha)|]. simpl.
  do 3 (split; [reflexivity|]).
  split; apply load_run; simpl.
  - apply lookup_insert_eq.
  - rewrite lookup_insert. destruct (decide (a = r)); [reflexivity|exact Hr].
Qed.

Lemma assign_copy_is_assign_raw_witness :
  assign_copy 1%positive 2%positive w_ex =
    assign_raw 1%positive (Some 6%positive) w_ex /\
  assign_copy_conv 1%positive 2%positive w_ex =
    assign_raw 1%positive (Some 6%positive) w_ex /\
  exists w',
    assign_raw 1%positive (Some 6%positive) w_ex = Some (1%positive, w') /\
    calls w' = [CallAddRef 6%positive; CallRelease 5%positive] /\
    get 1%positive w' = Some (Some 6%positive, w') /\
    get 2%positive w' = Some (Some 6%positive, w').
Proof.
  destruct (assign_copy_is_assign_raw w_ex 1%positive 2%positive
              (Some 5%positive) (Some 6%positive) eq_refl eq_refl)
    as (_ & Hc & Hcc & Hv & w' & Hrun & Hcalls & _ & _ & Hga & Hgr).
  split; [rewrite Hc; exact Hv|].
  split; [rewrite Hcc; exact Hv|].
  exists w'. repeat split; assumption.
Defined.

(** ** The scenarios of the spec *)

Example scenario_share_runs :
  exists w',
    scenario_share w_empty = Some (([1; 2; 1; 0], None), w') /\
    calls w' = [CallAddRef 7%positive; CallAddRef 7%positive;
                CallRelease 7%positive; CallRelease 7%positive] /\
    destroyed_objs (objs w') = [7%positive] /\
    mem w' = {[ 1%positive := None ]}.
Proof. eexists. split; [vm_compute; reflexivity|]. repeat split. Qed.

Example scenario_release_runs :
  exists w',
    scenario_release w_empty = Some ((Some 7%positive, None, 1), w') /\
    calls w' = [CallAddRef 7%positive] /\
    destroyed_objs (objs w') = [].
Proof. eexists. split; [vm_compute; reflexivity|]. repeat split. Qed.

(** * Further properties *)

(** ** Counting the holders of an object *)

Section Holders.
Implicit Types (m : gmap slot ptr) (l : slot) (p : ptr) (o : addr).

Lemma holders_delete m l o :
  holders (delete l m) o =
  holders m o - (if decide (m !! l = Some (Some o)) then 1 else 0).
Proof.
  unfold holders. rewrite map_filter_delete, map_size_delete.
  rewrite map_lookup_filter.
  assert (Hpos : forall q, m !! l = Some q -> q = Some o ->
            size (filter (fun kv : slot * ptr => kv.2 = Some o) m) <> 0%nat).
  { intros q Hl -> Hz. apply map_size_empty_inv in Hz.
    assert (Hin : filter (fun kv : slot * ptr => kv.2 = Some o) m !! l
                  = Some (Some o))
      by (apply map_lookup_filter_Some; split; [exact Hl | reflexivity]).
    rewrite Hz, lookup_empty in Hin. discriminate. }
  destruct (m !! l) as [q|]; simpl.
  - specialize (Hpos q eq_refl).
    destruct (decide (q = Some o)) as [Hq|Hq].
    + rewrite option_guard_True by exact Hq. simpl.
      destruct (decide (Some q = Some (Some o))); [|congruence].
      specialize (Hpos Hq). lia.
    + rewrite option_guard_False by exact Hq. simpl.
      destruct (decide (Some q = Some (Some o))); [congruence|]. lia.
  - destruct (decide (None = Some (Some o))); [discriminate|]. lia.
Qed.

Lemma holders_insert_fresh m l p o :
  m !! l = None ->
  holders (<[l := p]> m) o =
  holders m o + (if decide (p = Some o) then 1 else 0).
Proof.
  intros Hl. unfold holders. rewrite map_filter_insert. simpl.
  destruct (decide (p = Some o)) as [->|Hp].
  - rewrite map_size_insert_None; [lia|].
    rewrite map_lookup_filter, Hl. reflexivity.
  - rewrite delete_id by exact Hl. lia.
Qed.

Lemma holders_insert m l p o :
  holders (<[l := p]> m) o =
  holders m o - (if decide (m !! l = Some (Some o)) then 1 else 0)
              + (if decide (p = Some o) then 1 else 0).
Proof.
  rewrite <- insert_delete_eq.
  rewrite holders_insert_fresh by apply lookup_delete_eq.
  rewrite holders_delete. reflexivity.
Qed.

End Holders.

(** ** References and holders stay in step *)

(** [tally] compares counts and holders once the final world is known. *)
Ltac tally :=
  unfold outside_refs; simpl; unfold slot, ptr, addr in *;
  repeat first
    [ rewrite holders_insert
    | rewrite holders_delete
    | rewrite lookup_insert
    | rewrite refcount_add_ref
    | rewrite refcount_release_ref ];
  repeat match goal with
         | H : _ !! _ = _ |- _ => rewrite H
         end;
  repeat case_decide; unfold slot, ptr, addr in *; simplify_eq;
  try lia; try congruence.

Section Balance.
Context {O : Type} {T : RefCountInterface O} {C : Counted O}.
Implicit Types (w : world O) (a b r : slot) (p t : ptr) (o : addr).

(** X1. Assigning a raw pointer keeps counts and holders in step: for every
    object, the number of references that no cell accounts for is the same
    before and after, whatever the instance held and whatever is assigned
    (null, the same object, or another one). *)
Theorem assign_raw_balanced w a t p :
  mem w !! a = Some t ->
  exists w',
    assign_raw a p w = Some (a, w') /\
    forall o, outside_refs w' o = outside_refs w o.
Proof.
  intros Ha. rewrite (assign_raw_run w a t p Ha).
  eexists. split; [reflexivity|]. intros o.
  destruct p as [op|], t as [ot|]; tally.
Qed.


(** X3. Both copy constructors return the same instance and world, and keep
    counts and holders in step; copying a null instance makes no call. *)
Theorem ctor_copy_balanced w r t :
  mem w !! r = Some t ->
  exists b w',
    ctor_copy r w = Some (b, w') /\
    ctor_copy_conv r w = Some (b, w') /\
    get b w' = Some (t, w') /\
    get r w' = Some (t, w') /\
    (t = None -> calls w' = calls w /\ objs w' = objs w) /\
    forall o, outside_refs w' o = outside_refs w o.
Proof.
  intros Hr.
  pose proof (fresh_unused (mem w)) as Hfresh.
  pose proof (fresh_differs _ _ _ Hr) as Hne.
  eexists. eexists.
  split; [apply (ctor_copy_run w r t Hr)|].
  split; [apply (ctor_copy_run w r t Hr)|].
  split; [apply load_run; simpl; apply lookup_insert_eq|].
  split.
  { apply load_run; simpl. rewrite lookup_insert_ne by exact Hne. exact Hr. }
  split.
  { intros ->. simpl. rewrite app_nil_r. split; reflexivity. }
  intros o. destruct t as [ot|]; tally.
Qed.


(** X5. Destroying an instance removes one holder and, if it held an object,
    one reference: the references no cell accounts for are unchanged. *)
Theorem destroy_balanced w a t :
  mem w !! a = Some t ->
  exists w',
    destroy a w = Some (tt, w') /\
    mem w' !! a = None /\
    forall o, outside_refs w' o = outside_refs w o.
Proof.
  intros Ha. rewrite (destroy_run w a t Ha).
  eexists. split; [reflexivity|].
  split; [simpl; apply lookup_delete_eq|].
  intros o. destruct t as [ot|]; tally.
Qed.

(** X6. Move assignment keeps counts and holders in step, also when [r] is
    [a] itself. *)
Theorem assign_move_balanced w a r ta tr :
  mem w !! a = Some ta ->
  mem w !! r = Some tr ->
  exists w',
    assign_move a r w = Some (a, w') /\
    dom (mem w') = dom (mem w) /\
    forall o, outside_refs w' o = outside_refs w o.
Proof.
  intros Ha Hr.
  destruct (assign_move_steps w a r ta tr Ha Hr)
    as (w1 & w2 & w3 & _ & _ & _ & _ & _ & _ & _ & _ & _ & Hrun & ->).
  eexists. split; [exact Hrun|]. split.
  { simpl. rewrite dom_insert_lookup_L.
    - apply dom_insert_lookup_L. eauto.
    - rewrite lookup_insert. destruct (decide (r = a)); eauto. }
  intros o.
  destruct (decide (a = r)) as [->|Hne]; [|destruct ta as [ota|]]; tally.
Qed.

(** X7. Swapping two instances changes no count and no number of holders. *)
Theorem swap_balanced w a b ta tb :
  mem w !! a = Some ta ->
  mem w !! b = Some tb ->
  exists w',
    swap a b w = Some (tt, w') /\
    forall o, holders (mem w') o = holders (mem w) o /\
              outside_refs w' o = outside_refs w o.
Proof.
  intros Ha Hb. rewrite (swap_run w a b ta tb Ha Hb).
  eexists. split; [reflexivity|].
  intros o. split; tally.
Qed.


(** X9. Copy assignment, from an instance of [T] or of a subclass, keeps
    counts and holders in step, and afterwards both instances hold what the
    source held ("a and b each own a reference to the same object"). *)
Theorem assign_copy_balanced w a r ta tr :
  mem w !! a = Some ta ->
  mem w !! r = Some tr ->
  exists w',
    assign_copy a r w = Some (a, w') /\
    assign_copy_conv a r w = Some (a, w') /\
    get a w' = Some (tr, w') /\
    get r w' = Some (tr, w') /\
    forall o, outside_refs w' o = outside_refs w o.
Proof.
  intros Ha Hr.
  assert (Hrun : assign_copy a r w = assign_raw a tr w).
  { unfold assign_copy. rewrite (bind_run _ _ _ _ _ (load_run w r tr Hr)).
    reflexivity. }
  rewrite (assign_raw_run w a ta tr Ha) in Hrun.
  eexists. split; [exact Hrun|]. split; [exact Hrun|].
  split; [apply load_run; simpl; apply lookup_insert_eq|].
  split.
  { apply load_run; simpl. rewrite lookup_insert.
    destruct (decide (a = r)); [reflexivity | exact Hr]. }
  intros o. destruct tr as [otr|], ta as [ota|]; tally.
Qed.

End Balance.

(** ** Statements built from the methods *)

Section Composition.
Context {O : Type} {T : RefCountInterface O}.
Implicit Types (w : world O) (a b r : slot) (p t : ptr) (o : addr).

(** X10. [a = scoped_refptr<T>(p);] ends in the very world [a = p;] ends
    in: the same calls in the same order, the same cells, and no trace of
    the temporary. *)
Theorem assign_temporary_is_assign_raw w a t p :
  mem w !! a = Some t ->
  assign_temporary a p w = assign_raw a p w /\
  exists w', assign_raw a p w = Some (a, w').
Proof.
  intros Ha.
  pose proof (fresh_unused (mem w)) as Hfresh.
  pose proof (fresh_differs _ _ _ Ha) as Hne.
  set (tmp := fresh (dom (mem w))) in *.
  set (w1 := World (<[tmp := p]> (mem w))
                   (replay (issued CallAddRef p) (objs w))
                   (calls w ++ issued CallAddRef p)).
  assert (H1 : ctor_raw p w = Some (tmp, w1)) by apply ctor_raw_run.
  assert (H1a : mem w1 !! a = Some t).
  { simpl. rewrite lookup_insert_ne by exact Hne. exact Ha. }
  assert (H1t : mem w1 !! tmp = Some p) by apply lookup_insert_eq.
  destruct (assign_move_steps w1 a tmp t p H1a H1t)
    as (u1 & u2 & w2 & _ & _ & _ & _ & _ & _ & _ & _ & _ & H2 & Hw2).
  rewrite decide_False in Hw2 by congruence.
  assert (H2t : mem w2 !! tmp = Some None).
  { rewrite Hw2. simpl. rewrite lookup_insert_ne by congruence.
    apply lookup_insert_eq. }
  pose proof (destroy_run w2 tmp None H2t) as H3.
  split; [|rewrite (assign_raw_run w a t p Ha); eexists; reflexivity].
  unfold assign_temporary.
  rewrite (bind_run _ _ _ _ _ H1), (bind_run _ _ _ _ _ H2),
          (bind_run _ _ _ _ _ H3).
  rewrite (assign_raw_run w a t p Ha). unfold ret. do 2 f_equal.
  rewrite Hw2. simpl. rewrite !app_nil_r, replay_app, app_assoc. f_equal.
  apply map_eq. intros l.
  destruct (decide (l = tmp)) as [->|Hlt].
  - rewrite lookup_delete_eq, lookup_insert_ne by congruence.
    symmetry. exact Hfresh.
  - rewrite lookup_delete_ne by congruence.
    destruct (decide (l = a)) as [->|Hla].
    + rewrite !lookup_insert_eq. reflexivity.
    + rewrite !(lookup_insert_ne _ a) by congruence.
      rewrite !(lookup_insert_ne _ tmp) by congruence. reflexivity.
Qed.

(** X11. Moving an instance out into a new one and move-assigning it back
    is a round trip: no call is made, the pointees are untouched, [a] holds
    again what it held, and the only change is the new, null instance. *)
Theorem move_out_and_back_restores w a t :
  mem w !! a = Some t ->
  exists b w',
    move_out_and_back a w = Some (b, w') /\
    mem w !! b = None /\
    mem w' = <[b := None]> (mem w) /\
    get a w' = Some (t, w') /\
    calls w' = calls w /\
    objs w' = objs w.
Proof.
  intros Ha.
  pose proof (fresh_unused (mem w)) as Hfresh.
  pose proof (fresh_differs _ _ _ Ha) as Hne.
  pose proof (ctor_move_run w a t Ha) as H1.
  set (b := fresh (dom (mem w))) in *.
  set (w1 := World (<[b := t]> (<[a := None]> (mem w))) (objs w) (calls w))
    in *.
  assert (H1a : mem w1 !! a = Some None).
  { simpl. rewrite lookup_insert_ne by exact Hne. apply lookup_insert_eq. }
  assert (H1b : mem w1 !! b = Some t) by apply lookup_insert_eq.
  destruct (assign_move_steps w1 a b None t H1a H1b)
    as (u1 & u2 & w2 & _ & _ & _ & _ & _ & _ & _ & _ & _ & H2 & Hw2).
  assert (Hmem : mem w2 = <[b := None]> (mem w)).
  { rewrite Hw2. simpl. apply map_eq. intros l.
    destruct (decide (l = a)) as [->|Hla].
    - rewrite lookup_insert_eq, lookup_insert_ne by exact Hne.
      symmetry. exact Ha.
    - rewrite lookup_insert_ne by congruence.
      destruct (decide (l = b)) as [->|Hlb].
      + rewrite !lookup_insert_eq. reflexivity.
      + rewrite !lookup_insert_ne by congruence. reflexivity. }
  exists b, w2.
  split.
  { unfold move_out_and_back.
    rewrite (bind_run _ _ _ _ _ H1), (bind_run _ _ _ _ _ H2). reflexivity. }
  split; [exact Hfresh|]. split; [exact Hmem|].
  split.
  { apply load_run. rewrite Hmem, lookup_insert_ne by exact Hne. exact Ha. }
  rewrite Hw2. simpl. destruct (decide (a = b)); simpl;
    rewrite ?app_nil_r; split; reflexivity.
Qed.

(** X12. A default constructed instance is null, and constructing and
    destroying it makes no call and leaves the world as it was. *)
Theorem scope_default_leaves_no_trace w :
  exists foo w1,
    ctor_default w = Some (foo, w1) /\
    get foo w1 = Some (None, w1) /\
    calls w1 = calls w /\
    objs w1 = objs w /\
    destroy foo w1 = Some (tt, w) /\
    scope_default w = Some (tt, w).
Proof.
  pose proof (fresh_unused (mem w)) as Hfresh.
  set (foo := fresh (dom (mem w))) in *.
  set (w1 := World (<[foo := None]> (mem w)) (objs w) (calls w)).
  assert (H1 : ctor_default w = Some (foo, w1)) by reflexivity.
  assert (Hfoo : mem w1 !! foo = Some None) by apply lookup_insert_eq.
  assert (H2 : destroy foo w1 = Some (tt, w)).
  { rewrite (destroy_run w1 foo None Hfoo). simpl.
    rewrite app_nil_r, delete_insert_id by exact Hfresh.
    rewrite world_eta. reflexivity. }
  exists foo, w1.
  split; [exact H1|]. split; [apply load_run; exact Hfoo|].
  split; [reflexivity|]. split; [reflexivity|]. split; [exact H2|].
  unfold scope_default. rewrite (bind_run _ _ _ _ _ H1). exact H2.
Qed.

(** X13. [a = nullptr;] "explicitly releases": the instance is null
    afterwards and the pointees see exactly what they see when [a] is
    destroyed, one [Release] on the object held; on a null instance nothing
    changes at all. *)
Theorem assign_nullptr_releases w a t :
  mem w !! a = Some t ->
  exists w' wd,
    assign_raw a None w = Some (a, w') /\
    get a w' = Some (None, w') /\
    calls w' = calls w ++ issued CallRelease t /\
    destroy a w = Some (tt, wd) /\
    calls wd = calls w' /\
    objs wd = objs w' /\
    (t = None -> w' = w).
Proof.
  intros Ha.
  rewrite (assign_raw_run w a t None Ha), (destroy_run w a t Ha).
  eexists. eexists. split; [reflexivity|]. simpl.
  split; [apply load_run; simpl; apply lookup_insert_eq|].
  do 4 (split; [reflexivity|]).
  intros ->. simpl. rewrite app_nil_r, (insert_id _ _ _ Ha).
  apply world_eta.
Qed.

(** X14. Swapping an instance with itself changes nothing. *)
Theorem swap_self_is_noop w a t :
  mem w !! a = Some t ->
  swap a a w = Some (tt, w).
Proof.
  intros Ha. rewrite (swap_run w a a t t Ha Ha).
  rewrite insert_insert_eq, (insert_id _ _ _ Ha), world_eta. reflexivity.
Qed.

(** X15. [release()] hands a pointer out only once: called again, it
    returns [nullptr] and changes nothing. *)
Theorem release_twice w a t :
  mem w !! a = Some t ->
  exists w1,
    release a w = Some (t, w1) /\
    release a w1 = Some (None, w1).
Proof.
  intros Ha. rewrite (release_run w a t Ha). eexists.
  split; [reflexivity|].
  erewrite release_run by (simpl; apply lookup_insert_eq).
  simpl. rewrite insert_insert_eq. reflexivity.
Qed.

End Composition.

(** ** Scopes and self-assignment, with the counter *)

Section Lifetimes.
Context {O : Type} {T : RefCountInterface O} {C : Counted O}.
Implicit Types (w : world O) (a : slot) (p t : ptr) (o : addr).

(** X16. [a = a;] through the copy assignment operator increments before it
    decrements: the cells are untouched, every count is what it was, and as
    long as the object held has a non-zero count nothing is destroyed. *)
Theorem assign_copy_self_safe w a t :
  mem w !! a = Some t ->
  (forall o, t = Some o -> refcount (objs w) o <> 0) ->
  exists w',
    assign_copy a a w = Some (a, w') /\
    calls w' = calls w ++ issued CallAddRef t ++ issued CallRelease t /\
    mem w' = mem w /\
    destroyed (objs w') = destroyed (objs w) /\
    forall o, refcount (objs w') o = refcount (objs w) o.
Proof.
  intros Ha Hlive.
  assert (Hrun : assign_copy a a w = assign_raw a t w).
  { unfold assign_copy. rewrite (bind_run _ _ _ _ _ (load_run w a t Ha)).
    reflexivity. }
  rewrite (assign_raw_run w a t t Ha) in Hrun.
  eexists. split; [exact Hrun|]. simpl.
  split; [reflexivity|].
  split; [apply insert_id; exact Ha|].
  destruct t as [o|]; simpl.
  - split; [|intros o'; apply refcount_add_release].
    rewrite destroyed_release_ref_keep; [apply destroyed_add_ref|].
    rewrite refcount_add_ref_same.
    specialize (Hlive o eq_refl). lia.
  - split; reflexivity.
Qed.

(** X17. The sample of the header, [{ scoped_refptr<MyFoo> foo = p; }]:
    one [AddRef] at the construction, one [Release] when [foo] goes out of
    scope, the cells and every count as before; the object is destroyed at
    the end of the scope exactly when nobody else had a reference to it. *)
Theorem scope_raw_releases w p :
  exists w',
    scope_raw p w = Some (tt, w') /\
    mem w' = mem w /\
    calls w' = calls w ++ issued CallAddRef p ++ issued CallRelease p /\
    (forall o, refcount (objs w') o = refcount (objs w) o) /\
    forall o, p = Some o ->
      destroyed (objs w') =
      if decide (refcount (objs w) o = 0) then destroyed (objs w) ++ [o]
      else destroyed (objs w).
Proof.
  pose proof (fresh_unused (mem w)) as Hfresh.
  pose proof (ctor_raw_run w p) as H1.
  set (foo := fresh (dom (mem w))) in *.
  set (w1 := World (<[foo := p]> (mem w))
                   (replay (issued CallAddRef p) (objs w))
                   (calls w ++ issued CallAddRef p)) in *.
  assert (Hfoo : mem w1 !! foo = Some p) by apply lookup_insert_eq.
  pose proof (destroy_run w1 foo p Hfoo) as H2.
  eexists. split.
  { unfold scope_raw. rewrite (bind_run _ _ _ _ _ H1). exact H2. }
  simpl. split; [apply delete_insert_id; exact Hfresh|].
  split; [rewrite app_assoc; reflexivity|].
  split.
  - intros o. destruct p as [op|]; simpl.
    + apply refcount_add_release.
    + reflexivity.
  - intros o ->. simpl.
    rewrite destroyed_release_ref, refcount_add_ref_same, destroyed_add_ref.
    destruct (decide (refcount (objs w) o = 0));
      [rewrite decide_True by lia | rewrite decide_False by lia];
      reflexivity.
Qed.

End Lifetimes.

(** ** The further properties at work on [w_ex] *)

Lemma assign_raw_balanced_witness :
  exists w',
    assign_raw 1%positive (Some 6%positive) w_ex = Some (1%positive, w') /\
    forall o, outside_refs w' o = outside_refs w_ex o.
Proof.
  apply (assign_raw_balanced w_ex 1%positive (Some 5%positive)).
  reflexivity.
Defined.

Lemma ctor_copy_balanced_witness :
  exists b w',
    ctor_copy 2%positive w_ex = Some (b, w') /\
    ctor_copy_conv 2%positive w_ex = Some (b, w') /\
    get b w' = Some (Some 6%positive, w') /\
    forall o, outside_refs w' o = outside_refs w_ex o.
Proof.
  destruct (ctor_copy_balanced w_ex 2%positive (Some 6%positive) eq_refl)
    as (b & w' & Hc & Hcc & Hgb & _ & _ & Hbal).
  exists b, w'. repeat split; assumption.
Defined.


Lemma destroy_balanced_witness :
  exists w',
    destroy 2%positive w_ex = Some (tt, w') /\
    mem w' !! 2%positive = None /\
    forall o, outside_refs w' o = outside_refs w_ex o.
Proof.
  apply (destroy_balanced w_ex 2%positive (Some 6%positive)).
  reflexivity.
Defined.

Lemma assign_move_balanced_witness :
  exists w',
    assign_move 3%positive 2%positive w_ex = Some (3%positive, w') /\
    dom (mem w') = dom (mem w_ex) /\
    forall o, outside_refs w' o = outside_refs w_ex o.
Proof.
  apply (assign_move_balanced w_ex 3%positive 2%positive None
           (Some 6%positive)); reflexivity.
Defined.

Lemma swap_balanced_witness :
  exists w',
    swap 1%positive 3%positive w_ex = Some (tt, w') /\
    forall o, holders (mem w') o = holders (mem w_ex) o /\
              outside_refs w' o = outside_refs w_ex o.
Proof.
  apply (swap_balanced w_ex 1%positive 3%positive (Some 5%positive) None);
    reflexivity.
Defined.


Lemma assign_copy_balanced_witness :
  exists w',
    assign_copy 3%positive 1%positive w_ex = Some (3%positive, w') /\
    get 3%positive w' = Some (Some 5%positive, w') /\
    get 1%positive w' = Some (Some 5%positive, w') /\
    forall o, outside_refs w' o = outside_refs w_ex o.
Proof.
  destruct (assign_copy_balanced w_ex 3%positive 1%positive None
              (Some 5%positive) eq_refl eq_refl)
    as (w' & Hrun & _ & Hga & Hgr & Hbal).
  exists w'. repeat split; assumption.
Defined.

Lemma assign_temporary_is_assign_raw_witness :
  assign_temporary 1%positive (Some 6%positive) w_ex =
  assign_raw 1%positive (Some 6%positive) w_ex.
Proof.
  apply (assign_temporary_is_assign_raw w_ex 1%positive (Some 5%positive)).
  reflexivity.
Defined.

Lemma move_out_and_back_restores_witness :
  exists b w',
    move_out_and_back 2%positive w_ex = Some (b, w') /\
    mem w' = <[b := None]> (mem w_ex) /\
    get 2%positive w' = Some (Some 6%positive, w') /\
    calls w' = [] /\
    objs w' = objs w_ex.
Proof.
  destruct (move_out_and_back_restores w_ex 2%positive (Some 6%positive)
              eq_refl)
    as (b & w' & Hrun & _ & Hmem & Hg & Hc & Ho).
  exists b, w'. repeat split; assumption.
Defined.

Lemma assign_nullptr_releases_witness :
  exists w',
    assign_raw 1%positive None w_ex = Some (1%positive, w') /\
    get 1%positive w' = Some (None, w') /\
    calls w' = [CallRelease 5%positive].
Proof.
  destruct (assign_nullptr_releases w_ex 1%positive (Some 5%positive) eq_refl)
    as (w' & wd & Hrun & Hg & Hc & _).
  exists w'. repeat split; assumption.
Defined.

Lemma swap_self_is_noop_witness :
  swap 1%positive 1%positive w_ex = Some (tt, w_ex).
Proof.
  apply (swap_self_is_noop w_ex 1%positive (Some 5%positive)). reflexivity.
Defined.

Lemma release_twice_witness :
  exists w1,
    release 1%positive w_ex = Some (Some 5%positive, w1) /\
    release 1%positive w1 = Some (None, w1).
Proof.
  apply (release_twice w_ex 1%positive (Some 5%positive)). reflexivity.
Defined.

Lemma assign_copy_self_safe_witness :
  exists w',
    assign_copy 1%positive 1%positive w_ex = Some (1%positive, w') /\
    calls w' = [CallAddRef 5%positive; CallRelease 5%positive] /\
    mem w' = mem w_ex /\
    destroyed (objs w') = [] /\
    refcount (objs w') 5%positive = 1.
Proof.
  destruct (assign_copy_self_safe w_ex 1%positive (Some 5%positive) eq_refl)
    as (w' & Hrun & Hc & Hm & Hd & Hn).
  - intros o [= <-]. vm_compute. discriminate.
  - exists w'. repeat split; try assumption.
    rewrite Hn. reflexivity.
Defined.

(** ** A destroyed object is held by nobody *)

Section NoDangling.
Context {O : Type} {T : RefCountInterface O} {C : Counted O}.
Implicit Types (w : world O) (a r : slot) (p t : ptr) (o : addr).

Lemma holders_held (m : gmap slot ptr) (l : slot) o :
  m !! l = Some (Some o) -> 1 <= holders m o.
Proof.
  intros Hl. pose proof (holders_delete m l o) as Hd.
  rewrite decide_True in Hd by exact Hl.
  assert (0 <= holders (delete l m) o) by (unfold holders; lia).
  lia.
Qed.

(** X18. Raw-pointer assignment never leaves a cell pointing to an object it
    has destroyed.  If the count of the object held covers its holders,
    then either nothing is destroyed, or the object held is, and then it
    was not the one assigned and no cell holds it afterwards. *)
Theorem assign_raw_no_dangling w a t p :
  mem w !! a = Some t ->
  (forall o, t = Some o -> holders (mem w) o <= refcount (objs w) o) ->
  exists w',
    assign_raw a p w = Some (a, w') /\
    (destroyed (objs w') = destroyed (objs w) \/
     exists o, t = Some o /\ p <> Some o /\
               destroyed (objs w') = destroyed (objs w) ++ [o] /\
               refcount (objs w') o = 0 /\
               holders (mem w') o = 0).
Proof.
  intros Ha Hcov. rewrite (assign_raw_run w a t p Ha).
  eexists. split; [reflexivity|].
  destruct t as [o|]; simpl.
  2:{ left. destruct p; simpl; [apply destroyed_add_ref | reflexivity]. }
  specialize (Hcov o eq_refl).
  pose proof (holders_held _ _ _ Ha) as Hheld.
  destruct (decide (p = Some o)) as [->|Hp].
  - left. simpl.
    rewrite destroyed_release_ref_keep; [apply destroyed_add_ref|].
    rewrite refcount_add_ref_same. lia.
  - assert (Hcount : refcount (replay (issued CallAddRef p) (objs w)) o
                     = refcount (objs w) o).
    { destruct p as [op|]; simpl; [|reflexivity].
      rewrite refcount_add_ref. apply decide_False. congruence. }
    assert (Hdest : destroyed (replay (issued CallAddRef p) (objs w))
                    = destroyed (objs w)).
    { destruct p; simpl; [apply destroyed_add_ref | reflexivity]. }
    rewrite replay_app. simpl.
    rewrite destroyed_release_ref, Hcount, Hdest.
    destruct (decide (refcount (objs w) o - 1 = 0)) as [Hlast|Hmore].
    + right. exists o. split; [reflexivity|]. split; [exact Hp|].
      split; [reflexivity|]. split.
      * rewrite refcount_release_ref, decide_True by reflexivity.
        rewrite Hcount. exact Hlast.
      * rewrite holders_insert.
        rewrite decide_True by exact Ha.
        rewrite decide_False by exact Hp. lia.
    + left. reflexivity.
Qed.

(** X19. The destructor never leaves a cell pointing to an object it has
    destroyed: under the same proviso, if the object held is destroyed then
    no cell holds it afterwards. *)
Theorem destroy_no_dangling w a t :
  mem w !! a = Some t ->
  (forall o, t = Some o -> holders (mem w) o <= refcount (objs w) o) ->
  exists w',
    destroy a w = Some (tt, w') /\
    (destroyed (objs w') = destroyed (objs w) \/
     exists o, t = Some o /\
               destroyed (objs w') = destroyed (objs w) ++ [o] /\
               refcount (objs w') o = 0 /\
               holders (mem w') o = 0).
Proof.
  intros Ha Hcov. rewrite (destroy_run w a t Ha).
  eexists. split; [reflexivity|].
  destruct t as [o|]; simpl; [|left; reflexivity].
  specialize (Hcov o eq_refl).
  pose proof (holders_held _ _ _ Ha) as Hheld.
  rewrite destroyed_release_ref.
  destruct (decide (refcount (objs w) o - 1 = 0)) as [Hlast|Hmore].
  - right. exists o. split; [reflexivity|]. split; [reflexivity|]. split.
    + rewrite refcount_release_ref, decide_True by reflexivity. exact Hlast.
    + rewrite holders_delete, decide_True by exact Ha. lia.
  - left. reflexivity.
Qed.


(** X21. [a = std::move(r);] ends with the cells and the counts that
    [a = r; r = nullptr;] ends with, and spares the [AddRef] and the
    [Release] on what [r] held. *)
Theorem assign_move_spares_calls w a r ta tr :
  a <> r ->
  mem w !! a = Some ta ->
  mem w !! r = Some tr ->
  exists wm wc,
    assign_move a r w = Some (a, wm) /\
    copy_then_reset a r w = Some (r, wc) /\
    mem wc = mem wm /\
    (forall o, refcount (objs wc) o = refcount (objs wm) o) /\
    calls wm = calls w ++ issued CallRelease ta /\
    calls wc = calls w ++ issued CallAddRef tr ++ issued CallRelease ta
                       ++ issued CallRelease tr.
Proof.
  intros Hne Ha Hr.
  destruct (assign_move_steps w a r ta tr Ha Hr)
    as (w1 & w2 & w3 & _ & _ & _ & _ & _ & _ & _ & _ & _ & Hrun & ->).
  rewrite decide_False in Hrun by exact Hne.
  assert (Hcopy : assign_copy a r w = assign_raw a tr w).
  { unfold assign_copy. rewrite (bind_run _ _ _ _ _ (load_run w r tr Hr)).
    reflexivity. }
  rewrite (assign_raw_run w a ta tr Ha) in Hcopy.
  eexists. eexists. split; [exact Hrun|]. split.
  { unfold copy_then_reset. rewrite (bind_run _ _ _ _ _ Hcopy).
    apply (assign_raw_run _ r tr None). simpl.
    rewrite lookup_insert_ne by exact Hne. exact Hr. }
  simpl. split; [apply insert_insert_ne; congruence|].
  split.
  - intros o.
    destruct tr as [otr|], ta as [ota|]; simpl;
      rewrite ?refcount_release_ref, ?refcount_add_ref;
      rewrite ?refcount_release_ref, ?refcount_add_ref;
      repeat case_decide; simplify_eq; lia.
  - split; [reflexivity|]. rewrite <- !app_assoc. reflexivity.
Qed.

End NoDangling.

Lemma assign_raw_no_dangling_witness :
  exists w',
    assign_raw 1%positive (Some 6%positive) w_ex = Some (1%positive, w') /\
    (destroyed (objs w') = destroyed (objs w_ex) \/
     exists o, Some 5%positive = Some o /\ Some 6%positive <> Some o /\
               destroyed (objs w') = destroyed (objs w_ex) ++ [o] /\
               refcount (objs w') o = 0 /\
               holders (mem w') o = 0).
Proof.
  apply (assign_raw_no_dangling w_ex 1%positive (Some 5%positive)).
  - reflexivity.
  - intros o [= <-]. vm_compute. discriminate.
Defined.

Lemma destroy_no_dangling_witness :
  exists w',
    destroy 1%positive w_ex = Some (tt, w') /\
    (destroyed (objs w') = destroyed (objs w_ex) \/
     exists o, Some 5%positive = Some o /\
               destroyed (objs w') = destroyed (objs w_ex) ++ [o] /\
               refcount (objs w') o = 0 /\
               holders (mem w') o = 0).
Proof.
  apply (destroy_no_dangling w_ex 1%positive (Some 5%positive)).
  - reflexivity.
  - intros o [= <-]. vm_compute. discriminate.
Defined.


Lemma assign_move_spares_calls_witness :
  exists wm wc,
    assign_move 1%positive 2%positive w_ex = Some (1%positive, wm) /\
    copy_then_reset 1%positive 2%positive w_ex = Some (2%positive, wc) /\
    mem wc = mem wm /\
    calls wm = [CallRelease 5%positive] /\
    calls wc = [CallAddRef 6%positive; CallRelease 5%positive;
                CallRelease 6%positive].
Proof.
  destruct (assign_move_spares_calls w_ex 1%positive 2%positive
              (Some 5%positive) (Some 6%positive))
    as (wm & wc & Hm & Hc & Hmem & _ & Hcm & Hcc).
  - discriminate.
  - reflexivity.
  - reflexivity.
  - exists wm, wc. repeat split; assumption.
Defined.
